(** * The caching interceptor of the greeting application

    A shallow embedding of the cache-aside request interceptor
    ([CachingInterceptor.intercept] of the greeting application, also
    printed in README.md, Part 4, Step 2) together with the caching
    service it talks to.

    The interceptor is translated from the TypeScript source.  The caching
    service ([services/caching.service.ts]) is imported by the interceptor,
    the observer and the application, but the file itself is not among the
    sources; its operations are therefore modelled from the design
    document (sections 3 and 4.1) and marked as such. *)

From Stdlib Require Import ZArith Ascii.
From stdpp Require Import gmap strings list fin_maps.

Local Open Scope string_scope.
Local Open Scope list_scope.
Local Open Scope Z_scope.

(** ** JavaScript values

    [InvocationResult] is [any] in @loopback/context: the interceptor stores
    and returns whatever the target method produced.  Numbers are modelled
    as integers (no NaN); a [Date] is an object carrying its epoch
    milliseconds. *)

#[warnings="-register-all"]
Inductive JsValue : Type :=
  | JsUndefined
  | JsNull
  | JsBool (b : bool)
  | JsNumber (n : Z)
  | JsString (s : string)
  | JsDate (ms : Z)
  | JsObject (props : list (string * JsValue)).

(** ECMAScript [ToBoolean], the test performed by [if (cachedResult)]. *)
Definition truthy (v : JsValue) : bool :=
  match v with
  | JsUndefined | JsNull => false
  | JsBool b => b
  | JsNumber n => negb (n =? 0)
  | JsString s => negb (String.eqb s "")
  | JsDate _ | JsObject _ => true
  end.

(** ** The caching service *)

Module CachingService.

(** Modelled from the spec: the entry record of services/caching.service.ts
    (section 3, CacheEntry): key, opaque value, insertion time and
    deadline. *)
Record CacheEntry : Type := mkEntry {
  key : string;
  value : JsValue;
  createdAt : Z;
  expiresAt : Z
}.

(** Modelled from the spec: the state of services/caching.service.ts
    (section 3, CacheStore): one TTL for the whole store and a mapping
    with at most one entry per key. *)
Record CacheStore : Type := mkStore {
  ttl : Z;
  entries : gmap string CacheEntry
}.

(** Reference default of the TTL, in milliseconds. *)
Definition DEFAULT_TTL : Z := 10000.

Definition create (ttl : Z) : CacheStore :=
  {| ttl := ttl; entries := ∅ |}.

(** Modelled from the spec: [get] of services/caching.service.ts
    (section 4.1): miss when the key is absent; miss and removal of the
    stale entry when [now >= expiresAt]; the stored value otherwise. *)
Definition get (st : CacheStore) (k : string) (now : Z)
  : option JsValue * CacheStore :=
  match entries st !! k with
  | None => (None, st)
  | Some e =>
      if expiresAt e <=? now
      then (None, {| ttl := ttl st; entries := delete k (entries st) |})
      else (Some (value e), st)
  end.

(** Modelled from the spec: [set] of services/caching.service.ts
    (section 4.1): insert or fully replace the entry for the key with
    [createdAt = now] and [expiresAt = now + TTL]. *)
Definition set (st : CacheStore) (k : string) (v : JsValue) (now : Z)
  : CacheStore :=
  {| ttl := ttl st;
     entries :=
       <[k := {| key := k; value := v;
                 createdAt := now; expiresAt := now + ttl st |}]>
         (entries st) |}.

(** Modelled from the spec: [sweepOnce] of services/caching.service.ts
    (section 4.1): one synchronous scan that removes every entry with
    [now >= expiresAt] and reports the set of removed keys. *)
Definition sweepOnce (st : CacheStore) (now : Z)
  : gset string * CacheStore :=
  (dom (filter (λ kv, expiresAt kv.2 ≤ now) (entries st)),
   {| ttl := ttl st;
      entries := filter (λ kv, now < expiresAt kv.2) (entries st) |}).

End CachingService.

(** ** The invocation context *)

(** The two fields of the Express request the interceptor reads:
    [httpReq.path] and [httpReq.headers['accept-language']]
    (a [string | undefined]). *)
Record Request : Type := mkRequest {
  path : string;
  accept_language : option string
}.

(** Observable calls of one run, in chronological order. *)
Inductive Event : Type :=
  | EvGet (k : string)
  | EvSet (k : string) (v : JsValue)
  | EvNext.

(** Outcome of an awaited call: a value, or a thrown one. *)
Inductive Completion (A : Type) : Type :=
  | Return (a : A)
  | Throw (err : JsValue).
Arguments Return {A} a.
Arguments Throw {A} err.

Section Interceptor.

(** State of everything downstream of the interceptor (later
    interceptors, the controller method, its services). *)
Context {H : Type}.

(** What one run can touch: the clock read by the caching service, the
    singleton caching service, the downstream state, and the log of
    calls made so far.  One run is followed on its own: the two calls of
    the in-memory caching service take no time, time passes while [next]
    is awaited, and no other request or sweep is interleaved.  The
    [console.error] line of the hit branch is not part of the state. *)
Record World : Type := mkWorld {
  clock : Z;
  cachingService : CachingService.CacheStore;
  downstream : H;
  trace : list Event
}.

(** [next: () => ValueOrPromise<InvocationResult>]: given the time at
    which it is called and the downstream state, the handler completes
    with a value or fails, at some time, leaving a new downstream
    state.  It has no access to the caching service. *)
Definition Handler : Type := Z → H → Completion JsValue * Z * H.

Definition M (A : Type) : Type := World → Completion A * World.

Definition ret {A} (a : A) : M A := λ w, (Return a, w).

Definition bind {A B} (m : M A) (f : A → M B) : M B :=
  λ w, match m w with
       | (Return a, w') => f a w'
       | (Throw e, w') => (Throw e, w')
       end.

Definition log (ev : Event) (w : World) : World :=
  {| clock := clock w; cachingService := cachingService w;
     downstream := downstream w; trace := trace w ++ [ev] |}.

(** [await this.cachingService.get(key)]: a miss surfaces as
    [undefined]. *)
Definition cachingService_get (k : string) : M JsValue :=
  λ w, let '(r, st) := CachingService.get (cachingService w) k (clock w) in
       (Return (default JsUndefined r),
        log (EvGet k)
          {| clock := clock w; cachingService := st;
             downstream := downstream w; trace := trace w |}).

(** [await this.cachingService.set(key, result)]. *)
Definition cachingService_set (k : string) (v : JsValue) : M unit :=
  λ w, (Return tt,
        log (EvSet k v)
          {| clock := clock w;
             cachingService :=
               CachingService.set (cachingService w) k v (clock w);
             downstream := downstream w; trace := trace w |}).

(** [await next()]. *)
Definition call (next : Handler) : M JsValue :=
  λ w, let '(c, t, h) := next (clock w) (downstream w) in
       (c, log EvNext
             {| clock := t; cachingService := cachingService w;
                downstream := h; trace := trace w |}).

End Interceptor.

Arguments World H : clear implicits.
Arguments M H A : clear implicits.
Arguments Handler H : clear implicits.

Notation "'await!' x ':=' m 'in' f" := (bind m (λ x, f))
  (at level 10, x name, m at level 100, f at level 200, only parsing).

(** [const EXCLUDED_PATHS = ['/explorer/', '/explorer/openapi.json']]. *)
Definition EXCLUDED_PATHS : list string :=
  ["/explorer/"; "/explorer/openapi.json"].

(** [Array.prototype.includes] on strings. *)
Definition includes (l : list string) (s : string) : bool :=
  existsb (String.eqb s) l.

(** [httpReq.headers['accept-language'] || 'en']: the right operand is
    taken when the header is [undefined] or the empty string. *)
Definition lang (httpReq : Request) : string :=
  match accept_language httpReq with
  | None => "en"
  | Some s => if String.eqb s "" then "en" else s
  end.

(** [const cachingKey = `${lang}:${path}`]. *)
Definition cachingKey (httpReq : Request) : string :=
  lang httpReq +:+ ":" +:+ path httpReq.

(** [CachingInterceptor.intercept(invocationCtx, next)].  The invocation
    context is represented by the result of its only use,
    [invocationCtx.get(RestBindings.Http.REQUEST, {optional: true})].
    The [console.error('Cache found for %s %j', ...)] of the hit branch
    writes to the error stream only; [%j] formats every [JsValue] (there
    is no BigInt among them), so on the values modelled here the line
    neither fails nor changes the outcome. *)
Definition intercept {H} (httpReq : option Request) (next : Handler H)
  : M H JsValue :=
  match httpReq with
  | None => call next
  | Some httpReq =>
      if includes EXCLUDED_PATHS (path httpReq) then call next
      else
        let cachingKey := cachingKey httpReq in
        await! cachedResult := cachingService_get cachingKey in
        if truthy cachedResult then ret cachedResult
        else
          await! result := call next in
          await! _done := cachingService_set cachingKey result in
          ret result
  end.

(** ** Example data: the greeting endpoint *)

(** [GreetingController.greet]: the handler behind [GET /greet/{name}]
    answers with [{timestamp: new Date(), language, greeting}].  The
    downstream state counts the calls; the greeting text is the one the
    greeting service would produce. *)
Definition greet (language greeting : string) : Handler nat :=
  λ now calls,
    (Return (JsObject [("timestamp", JsDate now);
                       ("language", JsString language);
                       ("greeting", JsString greeting)]),
     now, S calls).

(** A target method that throws. *)
Definition failing (err : JsValue) : Handler nat :=
  λ now calls, (Throw err, now, S calls).

(** A target method that answers with a fixed value. *)
Definition constant (v : JsValue) : Handler nat :=
  λ now calls, (Return v, now, S calls).

(** The caching service as the application binds it: empty, with the
    default TTL. *)
Definition empty_store : CachingService.CacheStore :=
  CachingService.create CachingService.DEFAULT_TTL.

(** A world at time [now] with a given store, no downstream call made and
    an empty log. *)
Definition world_at (now : Z) (st : CachingService.CacheStore) : World nat :=
  {| clock := now; cachingService := st; downstream := 0%nat; trace := [] |}.

(** The calls one run of the cache-aside path adds to the log: the lookup
    alone, the lookup and a failed call of [next], or the lookup, the call
    and the store. *)
Inductive run_shape (k : string) : list Event → Prop :=
  | shape_cached : run_shape k [EvGet k]
  | shape_failed : run_shape k [EvGet k; EvNext]
  | shape_computed res : run_shape k [EvGet k; EvNext; EvSet k res].

(** The languages the application greets in: English and Chinese from the
    greeting component, French from [FrenchGreeter]; an earlier draft of
    the tutorial negotiated the tag with
    [httpReq.acceptsLanguages(['en', 'zh', 'fr'])]. *)
Definition ACCEPTED_LANGUAGES : list string := ["en"; "zh"; "fr"].

(** The same world [d] milliseconds later, with a fresh log. *)
Definition later {H} (d : Z) (w : World H) : World H :=
  {| clock := clock w + d; cachingService := cachingService w;
     downstream := downstream w; trace := [] |}.

(** ** The greeters and the greeting endpoint *)

Module FrenchGreeter.

(** [FrenchGreeterOptions]: name first, [true] by default. *)
Record FrenchGreeterOptions : Type := mkOptions { nameFirst : bool }.

(** [language = 'fr']. *)
Definition language : string := "fr".

(** [FrenchGreeter.greet(name)].  [options] is [None] when [this.options]
    is falsy. *)
Definition greet (options : option FrenchGreeterOptions) (name : string)
  : string :=
  if match options with
     | Some o => negb (nameFirst o)
     | None => false
     end
  then "Bonjour，" +:+ name +:+ "！"
  else name +:+ ", Bonjour".

End FrenchGreeter.

Module SimpleGreetingService.

(** A [string | undefined] substituted in a template literal. *)
Definition substitute (s : option string) : string := default "undefined" s.

(** [SimpleGreetingService.greet(language, name)]; the language is the
    value of the [Accept-Language] header parameter, [undefined] when the
    request has none. *)
Definition greet (language : option string) (name : string) : string :=
  "Greeting '" +:+ name +:+ "' in language '"
    +:+ substitute language +:+ "'".

End SimpleGreetingService.

Module GreetingController.

(** [GreetingController.greet(name, language)] of the greeting
    application, as the handler behind [GET /greet/{name}]: the greeting
    service answers at once, the time stamp is the time of the call, and
    the downstream state counts the calls. *)
Definition greet (name : string) (language : option string) : Handler nat :=
  λ now calls,
    let greeting := SimpleGreetingService.greet language name in
    (Return (JsObject [("timestamp", JsDate now);
                       ("language", from_option JsString JsUndefined language);
                       ("greeting", JsString greeting)]),
     now, S calls).

End GreetingController.

(** Whether a character occurs in a string. *)
Fixpoint occurs (c : Ascii.ascii) (s : string) : bool :=
  match s with
  | EmptyString => false
  | String a s' => Ascii.eqb a c || occurs c s'
  end.

(** * Properties of the caching service *)

Section CachingServiceFacts.

Import CachingService.

Implicit Types (st : CacheStore) (k : string) (e : CacheEntry) (now : Z).

Lemma get_absent st k now :
  entries st !! k = None → get st k now = (None, st).
Proof. intros Hk. unfold get. by rewrite Hk. Qed.

Lemma get_stale st k e now :
  entries st !! k = Some e → expiresAt e ≤ now →
  get st k now
  = (None, {| ttl := ttl st; entries := delete k (entries st) |}).
Proof.
  intros Hk Hexp. unfold get. rewrite Hk.
  destruct (Z.leb_spec (expiresAt e) now); [done | lia].
Qed.

Lemma get_live st k e now :
  entries st !! k = Some e → now < expiresAt e →
  get st k now = (Some (value e), st).
Proof.
  intros Hk Hlive. unfold get. rewrite Hk.
  destruct (Z.leb_spec (expiresAt e) now); [lia | done].
Qed.

(** Whatever [get] returns comes from a live entry. *)
Lemma get_Some_inv st k now v :
  (get st k now).1 = Some v →
  ∃ e, entries st !! k = Some e ∧ value e = v ∧ now < expiresAt e.
Proof.
  unfold get. destruct (entries st !! k) as [e|] eqn:Hk; [|done].
  destruct (Z.leb_spec (expiresAt e) now); simpl; [done|].
  intros [= <-]. eauto.
Qed.

(** [get] touches no key but the one it is asked for, and keeps the TTL. *)
Lemma get_other st k k' now :
  k ≠ k' → entries (get st k now).2 !! k' = entries st !! k'.
Proof.
  intros Hne. unfold get. destruct (entries st !! k) as [e|]; [|done].
  destruct (expiresAt e <=? now); simpl; [|done].
  by rewrite lookup_delete_ne.
Qed.

Lemma get_ttl st k now : ttl (get st k now).2 = ttl st.
Proof.
  unfold get. destruct (entries st !! k) as [e|]; [|done].
  by destruct (expiresAt e <=? now).
Qed.


Lemma set_lookup st k v now :
  entries (set st k v now) !! k
  = Some {| key := k; value := v;
            createdAt := now; expiresAt := now + ttl st |}.
Proof. unfold set. simpl. by rewrite lookup_insert_eq. Qed.

Lemma set_other st k k' v now :
  k ≠ k' → entries (set st k v now) !! k' = entries st !! k'.
Proof. intros Hne. unfold set. simpl. by rewrite lookup_insert_ne. Qed.

End CachingServiceFacts.

(** C2: a [get] at a time at which the stored entry for the key has
    expired ([now >= expiresAt], in particular once the TTL has elapsed
    since the last [set] of that key) returns a miss without any sweep
    having run, and removes the stale entry from the store; whatever a
    read returns is the value of an entry that is live at that time. *)
Theorem get_expired_is_miss_and_removes
  (st : CachingService.CacheStore) (k : string) (now : Z) :
  (∀ e, CachingService.entries st !! k = Some e →
        CachingService.expiresAt e ≤ now →
        CachingService.get st k now
        = (None, {| CachingService.ttl := CachingService.ttl st;
                    CachingService.entries :=
                      delete k (CachingService.entries st) |})
        ∧ CachingService.entries (CachingService.get st k now).2 !! k = None)
  ∧ (∀ v t0, t0 + CachingService.ttl st ≤ now →
        let st1 := CachingService.set st k v t0 in
        (CachingService.get st1 k now).1 = None
        ∧ CachingService.entries (CachingService.get st1 k now).2 !! k = None)
  ∧ (∀ v, (CachingService.get st k now).1 = Some v →
        ∃ e, CachingService.entries st !! k = Some e
             ∧ CachingService.value e = v
             ∧ now < CachingService.expiresAt e).
Proof.
  split; [|split].
  - intros e Hk Hexp. rewrite (get_stale st k e now Hk Hexp). simpl.
    split; [done | apply lookup_delete_eq].
  - intros v t0 Hexp st1.
    pose proof (set_lookup st k v t0) as Hk. fold st1 in Hk.
    rewrite (get_stale st1 k _ now Hk); simpl; [|done].
    split; [done | apply lookup_delete_eq].
  - apply get_Some_inv.
Qed.

Lemma get_expired_is_miss_and_removes_witness :
  let st := CachingService.set empty_store
              "en:/greet/loopback" (JsString "Hello, loopback!") 1000 in
  (CachingService.get st "en:/greet/loopback" 11000).1 = None
  ∧ CachingService.entries
      (CachingService.get st "en:/greet/loopback" 11000).2
      !! "en:/greet/loopback" = None.
Proof.
  refine (proj1 (proj2 (get_expired_is_miss_and_removes
                          empty_store
                          "en:/greet/loopback" 11000))
            (JsString "Hello, loopback!") 1000 _).
  vm_compute. discriminate.
Defined.

(** C7: a [set] of a key followed, before the TTL has elapsed, by a [get]
    of that key returns exactly the value that was set and leaves the
    store as [set] made it; [get] is defined for every store, key and
    time, and its outcome is a miss or the stored value of a live entry. *)
Theorem get_after_set
  (st : CachingService.CacheStore) (k : string) (v : JsValue) (t now : Z) :
  now < t + CachingService.ttl st →
  CachingService.get (CachingService.set st k v t) k now
  = (Some v, CachingService.set st k v t)
  ∧ (∀ st' k' now',
        (CachingService.get st' k' now').1 = None
        ∨ ∃ e, CachingService.entries st' !! k' = Some e
               ∧ now' < CachingService.expiresAt e
               ∧ (CachingService.get st' k' now').1
                 = Some (CachingService.value e)).
Proof.
  intros Hlive. split.
  - by rewrite (get_live _ k _ now (set_lookup st k v t)).
  - intros st' k' now'.
    destruct (CachingService.get st' k' now').1 as [v'|] eqn:Hget; [|by left].
    right. apply get_Some_inv in Hget as (e & He & <- & Hlt). eauto.
Qed.

Lemma get_after_set_witness :
  let st := CachingService.set empty_store
              "en:/greet/loopback" (JsString "Hello, loopback!") 1000 in
  CachingService.get st "en:/greet/loopback" 1000
  = (Some (JsString "Hello, loopback!"), st).
Proof.
  refine (proj1 (get_after_set empty_store
                   "en:/greet/loopback" (JsString "Hello, loopback!")
                   1000 1000 _)).
  vm_compute. reflexivity.
Defined.

(** C8: [sweepOnce] removes exactly the entries whose [expiresAt] is at or
    before the time of the call and returns the set of their keys;
    afterwards no entry with [expiresAt <= now] remains, every entry that
    was live at the call is still present and unchanged, and the removed
    keys are absent. *)
Theorem sweepOnce_removes_expired
  (st : CachingService.CacheStore) (now : Z) :
  let removed := (CachingService.sweepOnce st now).1 in
  let st' := (CachingService.sweepOnce st now).2 in
  (∀ k, k ∈ removed ↔
        ∃ e, CachingService.entries st !! k = Some e
             ∧ CachingService.expiresAt e ≤ now)
  ∧ (∀ k e, CachingService.entries st' !! k = Some e →
            now < CachingService.expiresAt e)
  ∧ (∀ k e, CachingService.entries st !! k = Some e →
            now < CachingService.expiresAt e →
            CachingService.entries st' !! k = Some e)
  ∧ (∀ k, k ∈ removed → CachingService.entries st' !! k = None)
  ∧ CachingService.ttl st' = CachingService.ttl st.
Proof.
  simpl. repeat split.
  - intros [e He]%elem_of_dom. apply map_lookup_filter_Some in He. eauto.
  - intros (e & He & Hexp). apply elem_of_dom. exists e.
    by apply map_lookup_filter_Some.
  - intros k e He. by apply map_lookup_filter_Some in He as [_ Hlive].
  - intros k e He Hlive. by apply map_lookup_filter_Some.
  - intros k [e He]%elem_of_dom.
    apply map_lookup_filter_Some in He as [He Hexp]; simpl in Hexp.
    apply map_lookup_filter_None. right. intros e' He'.
    rewrite He in He'. injection He' as <-. simpl. lia.
Qed.

(** Two entries, one set at 0 and one at 5 s, swept at 12 s with a TTL of
    10 s: the first is reported and gone, the second stays. *)
Lemma sweepOnce_removes_expired_witness :
  let st := CachingService.set
              (CachingService.set empty_store
                 "en:/greet/loopback" (JsString "Hello, loopback!") 0)
              "zh:/greet/loopback" (JsString "你好，loopback！") 5000 in
  "en:/greet/loopback" ∈ (CachingService.sweepOnce st 12000).1
  ∧ CachingService.entries (CachingService.sweepOnce st 12000).2
      !! "en:/greet/loopback" = None
  ∧ CachingService.entries (CachingService.sweepOnce st 12000).2
      !! "zh:/greet/loopback"
    = Some {| CachingService.key := "zh:/greet/loopback";
              CachingService.value := JsString "你好，loopback！";
              CachingService.createdAt := 5000;
              CachingService.expiresAt := 15000 |}.
Proof.
  intros st.
  destruct (sweepOnce_removes_expired st 12000)
    as (Hremoved & _ & Hkept & Hgone & _).
  assert (Hin : "en:/greet/loopback" ∈ (CachingService.sweepOnce st 12000).1).
  { apply Hremoved. eexists.
    split; [vm_compute; reflexivity | vm_compute; discriminate]. }
  split; [exact Hin|]. split; [exact (Hgone _ Hin)|].
  apply Hkept; [vm_compute; reflexivity | vm_compute; reflexivity].
Defined.

(** * Properties of the interceptor *)

Section InterceptFacts.

Context {H : Type}.

Implicit Types (w : World H) (next : Handler H) (req : Request).

Lemma includes_elem_of (l : list string) (s : string) :
  includes l s = true ↔ s ∈ l.
Proof.
  unfold includes. rewrite existsb_exists. split.
  - intros (x & Hx & Heq). apply String.eqb_eq in Heq as ->.
    by apply list_elem_of_In.
  - intros Hs. exists s. split; [by apply list_elem_of_In|].
    apply String.eqb_refl.
Qed.

Lemma call_spec next w c t h :
  next (clock w) (downstream w) = (c, t, h) →
  call next w
  = (c, {| clock := t; cachingService := cachingService w;
           downstream := h; trace := trace w ++ [EvNext] |}).
Proof. intros Hn. unfold call. by rewrite Hn. Qed.

(** The early [return next()] of the guard. *)
Lemma intercept_excluded req next w :
  includes EXCLUDED_PATHS (path req) = true →
  intercept (Some req) next w = call next w.
Proof. intros Hex. unfold intercept. by rewrite Hex. Qed.

(** [return cachedResult]. *)
Lemma intercept_cached req next w v st' :
  includes EXCLUDED_PATHS (path req) = false →
  CachingService.get (cachingService w) (cachingKey req) (clock w)
  = (Some v, st') →
  truthy v = true →
  intercept (Some req) next w
  = (Return v,
     {| clock := clock w; cachingService := st';
        downstream := downstream w;
        trace := trace w ++ [EvGet (cachingKey req)] |}).
Proof.
  intros Hex Hget Htruthy.
  unfold intercept, bind, cachingService_get, ret, log.
  rewrite Hex, Hget. simpl. by rewrite Htruthy.
Qed.

(** [next()] resolves: the result is stored, then returned. *)
Lemma intercept_computed req next w r st' res t h :
  includes EXCLUDED_PATHS (path req) = false →
  CachingService.get (cachingService w) (cachingKey req) (clock w)
  = (r, st') →
  truthy (default JsUndefined r) = false →
  next (clock w) (downstream w) = (Return res, t, h) →
  intercept (Some req) next w
  = (Return res,
     {| clock := t;
        cachingService := CachingService.set st' (cachingKey req) res t;
        downstream := h;
        trace := trace w ++ [EvGet (cachingKey req); EvNext;
                             EvSet (cachingKey req) res] |}).
Proof.
  intros Hex Hget Hfalsy Hnext.
  unfold intercept, bind, cachingService_get, cachingService_set, call,
    ret, log.
  rewrite Hex, Hget. simpl. rewrite Hfalsy. simpl. rewrite Hnext. simpl.
  by rewrite <- !app_assoc.
Qed.

(** [next()] rejects: the [await] rethrows, [set] is not reached. *)
Lemma intercept_failed req next w r st' err t h :
  includes EXCLUDED_PATHS (path req) = false →
  CachingService.get (cachingService w) (cachingKey req) (clock w)
  = (r, st') →
  truthy (default JsUndefined r) = false →
  next (clock w) (downstream w) = (Throw err, t, h) →
  intercept (Some req) next w
  = (Throw err,
     {| clock := t; cachingService := st'; downstream := h;
        trace := trace w ++ [EvGet (cachingKey req); EvNext] |}).
Proof.
  intros Hex Hget Hfalsy Hnext.
  unfold intercept, bind, cachingService_get, call, log.
  rewrite Hex, Hget. simpl. rewrite Hfalsy. simpl. rewrite Hnext. simpl.
  by rewrite <- !app_assoc.
Qed.

(** A run for a request that is not excluded starts with the lookup of
    the derived key; a store, if any, is under the same key; no other
    key of the caching service is touched. *)
Lemma intercept_run req next w :
  includes EXCLUDED_PATHS (path req) = false →
  let w' := (intercept (Some req) next w).2 in
  (∃ added, trace w' = trace w ++ added ∧ run_shape (cachingKey req) added)
  ∧ (∀ k', cachingKey req ≠ k' →
       CachingService.entries (cachingService w') !! k'
       = CachingService.entries (cachingService w) !! k').
Proof.
  intros Hex.
  destruct (CachingService.get (cachingService w) (cachingKey req)
              (clock w)) as [r st'] eqn:Hget.
  assert (Hst' : ∀ k', cachingKey req ≠ k' →
            CachingService.entries st' !! k'
            = CachingService.entries (cachingService w) !! k').
  { intros k' Hne. replace st' with
      (CachingService.get (cachingService w) (cachingKey req) (clock w)).2
      by (by rewrite Hget).
    by apply get_other. }
  destruct (truthy (default JsUndefined r)) eqn:Htruthy.
  - destruct r as [v|]; [|done].
    rewrite (intercept_cached _ _ _ _ _ Hex Hget Htruthy). simpl.
    split; [eexists; split; [done | constructor] | done].
  - destruct (next (clock w) (downstream w)) as [[[res|err] t] h] eqn:Hnext.
    + rewrite (intercept_computed _ _ _ _ _ _ _ _ Hex Hget Htruthy Hnext).
      simpl. split; [eexists; split; [done | constructor] |].
      intros k' Hne. rewrite lookup_insert_ne by done. by apply Hst'.
    + rewrite (intercept_failed _ _ _ _ _ _ _ _ Hex Hget Htruthy Hnext).
      simpl. split; [eexists; split; [done | constructor] | done].
Qed.

End InterceptFacts.

(** ** Invocations that bypass the cache *)

(** C10: when no HTTP request is bound in the invocation context, the
    interceptor is exactly one call of [next]: it completes as [next]
    completes, with [next]'s result, and the caching service is neither
    read nor written. *)
Theorem intercept_without_request
  {H : Type} (next : Handler H) (w : World H) :
  let '(c, t, h) := next (clock w) (downstream w) in
  intercept None next w = call next w
  ∧ intercept None next w
    = (c, {| clock := t; cachingService := cachingService w;
             downstream := h; trace := trace w ++ [EvNext] |}).
Proof.
  destruct (next (clock w) (downstream w)) as [[c t] h] eqn:Hnext.
  split; [done|]. by apply call_spec.
Qed.

(** C3: the exclusion set consists of exactly the two paths ['/explorer/']
    and ['/explorer/openapi.json']; for a request whose path is in it the
    interceptor is exactly one call of [next], whose completion it passes
    on unmodified, and the caching service is neither read nor written,
    whatever it holds. *)
Theorem intercept_excluded_path
  {H : Type} (req : Request) (next : Handler H) (w : World H) :
  path req ∈ EXCLUDED_PATHS →
  (∀ p, p ∈ EXCLUDED_PATHS ↔
        p = "/explorer/" ∨ p = "/explorer/openapi.json")
  ∧ let '(c, t, h) := next (clock w) (downstream w) in
    intercept (Some req) next w
    = (c, {| clock := t; cachingService := cachingService w;
             downstream := h; trace := trace w ++ [EvNext] |}).
Proof.
  intros Hin. split.
  - intros p. unfold EXCLUDED_PATHS. rewrite !elem_of_cons, elem_of_nil.
    tauto.
  - destruct (next (clock w) (downstream w)) as [[c t] h] eqn:Hnext.
    rewrite intercept_excluded by (by apply includes_elem_of).
    by apply call_spec.
Qed.

Lemma intercept_excluded_path_witness :
  let w := world_at 5 (CachingService.set empty_store
                         "en:/explorer/" (JsString "stale page") 0) in
  intercept
    (Some {| path := "/explorer/"; accept_language := None |})
    (constant (JsString "explorer page")) w
  = (Return (JsString "explorer page"),
     {| clock := 5; cachingService := cachingService w;
        downstream := 1%nat; trace := [EvNext] |}).
Proof.
  intros w.
  apply (intercept_excluded_path
           {| path := "/explorer/"; accept_language := None |}
           (constant (JsString "explorer page")) w).
  unfold EXCLUDED_PATHS. simpl. constructor.
Defined.

(** ** Cache-aside behaviour *)

(** A live entry with a falsy value is looked up and then ignored: the
    endpoint answers [0], the answer is stored, and the repeat request
    200 ms later, well within the TTL, calls the endpoint again. *)
Lemma intercept_hit_counterexample :
  let req := {| path := "/count"; accept_language := Some "en" |} in
  let w1 :=
    (intercept (Some req) (constant (JsNumber 0))
       (world_at 1000 empty_store)).2 in
  let w2 := {| clock := 1200; cachingService := cachingService w1;
               downstream := downstream w1; trace := [] |} in
  includes EXCLUDED_PATHS (path req) = false
  ∧ (∃ e, CachingService.entries (cachingService w2) !! cachingKey req
          = Some e
          ∧ CachingService.value e = JsNumber 0
          ∧ clock w2 < CachingService.expiresAt e)
  ∧ downstream w2 = 1%nat
  ∧ downstream (intercept (Some req) (constant (JsNumber 0)) w2).2 = 2%nat
  ∧ trace (intercept (Some req) (constant (JsNumber 0)) w2).2
    = [EvGet "en:/count"; EvNext; EvSet "en:/count" (JsNumber 0)]
  ∧ ¬ (trace (intercept (Some req) (constant (JsNumber 0)) w2).2
       = [EvGet "en:/count"]).
Proof.
  vm_compute. repeat split; try done.
  eexists. repeat split; done.
Qed.

(** C1 (amended): for a request that is not excluded, (a) if the caching
    service holds a live entry under the derived key and its value is
    truthy, the interceptor returns that value and [next] is not called:
    clock, store and downstream state are untouched and the only call made
    is the lookup; (b) if it holds no live entry under the derived key and
    [next] returns a result, the interceptor calls [next] once, stores the
    result under the derived key with a fresh deadline, and returns that
    same result. *)
Theorem intercept_cache_aside
  {H : Type} (req : Request) (next : Handler H) (w : World H) :
  includes EXCLUDED_PATHS (path req) = false →
  let k := cachingKey req in
  let st := cachingService w in
  (∀ e, CachingService.entries st !! k = Some e →
        clock w < CachingService.expiresAt e →
        truthy (CachingService.value e) = true →
        intercept (Some req) next w
        = (Return (CachingService.value e),
           {| clock := clock w; cachingService := st;
              downstream := downstream w;
              trace := trace w ++ [EvGet k] |}))
  ∧ (∀ res t h,
        (∀ e, CachingService.entries st !! k = Some e →
              CachingService.expiresAt e ≤ clock w) →
        next (clock w) (downstream w) = (Return res, t, h) →
        intercept (Some req) next w
        = (Return res,
           {| clock := t;
              cachingService :=
                CachingService.set
                  (CachingService.get st k (clock w)).2 k res t;
              downstream := h;
              trace := trace w ++ [EvGet k; EvNext; EvSet k res] |})
        ∧ CachingService.entries
            (cachingService (intercept (Some req) next w).2) !! k
          = Some {| CachingService.key := k;
                    CachingService.value := res;
                    CachingService.createdAt := t;
                    CachingService.expiresAt := t + CachingService.ttl st |}).
Proof.
  intros Hex k st. split.
  - intros e Hk Hlive Htruthy.
    apply intercept_cached; [done | by apply get_live | done].
  - intros res t h Hdead Hnext.
    assert (Hmiss : (CachingService.get st k (clock w)).1 = None).
    { destruct (CachingService.get st k (clock w)).1 as [v|] eqn:Hget; [|done].
      apply get_Some_inv in Hget as (e & Hk & _ & Hlive).
      specialize (Hdead e Hk). lia. }
    destruct (CachingService.get st k (clock w)) as [r st'] eqn:Hget.
    simpl in Hmiss. subst r.
    rewrite (intercept_computed req next w None st' res t h); try done.
    simpl. split; [done|]. rewrite lookup_insert_eq.
    replace st' with (CachingService.get st k (clock w)).2
      by (by rewrite Hget).
    by rewrite get_ttl.
Qed.

(** The scenario of the tutorial: [GET /greet/loopback] in English at
    [T1 = 1000] is computed and stored; the repeat at [T1 + 200] is served
    from the cache, so the time stamp in the answer is still [T1] and the
    handler has run once. *)
Lemma intercept_cache_aside_witness :
  let req := {| path := "/greet/loopback"; accept_language := Some "en" |} in
  let next := greet "en" "Hello, loopback!" in
  let answer := JsObject [("timestamp", JsDate 1000);
                          ("language", JsString "en");
                          ("greeting", JsString "Hello, loopback!")] in
  let w1 := (intercept (Some req) next
               (world_at 1000 empty_store)).2 in
  let w2 := {| clock := 1200; cachingService := cachingService w1;
               downstream := downstream w1; trace := [] |} in
  (intercept (Some req) next (world_at 1000 empty_store)).1
  = Return answer
  ∧ intercept (Some req) next w2
    = (Return answer,
       {| clock := 1200; cachingService := cachingService w1;
          downstream := 1%nat; trace := [EvGet "en:/greet/loopback"] |}).
Proof.
  intros req next answer w1 w2. split.
  - refine (f_equal fst
      (proj1 (proj2 (intercept_cache_aside req next
                       (world_at 1000 empty_store)
                       eq_refl)
                answer 1000 1%nat _ eq_refl))).
    intros e He. vm_compute in He. discriminate He.
  - refine (proj1 (intercept_cache_aside req next w2 eq_refl)
              {| CachingService.key := "en:/greet/loopback";
                 CachingService.value := answer;
                 CachingService.createdAt := 1000;
                 CachingService.expiresAt := 11000 |} _ _ eq_refl).
    + vm_compute. reflexivity.
    + vm_compute. reflexivity.
Defined.

(** C9: for a request that is not excluded whose derived key maps to a
    live entry with a falsy value, the lookup counts as a miss: [next] is
    called although the entry has not expired, the interceptor completes
    as [next] does, and a result of [next] is stored again. *)
Theorem intercept_falsy_entry_calls_next
  {H : Type} (req : Request) (next : Handler H) (w : World H)
  (e : CachingService.CacheEntry) :
  includes EXCLUDED_PATHS (path req) = false →
  CachingService.entries (cachingService w) !! cachingKey req = Some e →
  clock w < CachingService.expiresAt e →
  truthy (CachingService.value e) = false →
  let '(c, t, h) := next (clock w) (downstream w) in
  let w' := (intercept (Some req) next w).2 in
  (intercept (Some req) next w).1 = c
  ∧ clock w' = t
  ∧ downstream w' = h
  ∧ trace w'
    = trace w ++ EvGet (cachingKey req) :: EvNext ::
        match c with
        | Return res => [EvSet (cachingKey req) res]
        | Throw _ => []
        end.
Proof.
  intros Hex Hk Hlive Hfalsy.
  pose proof (get_live _ _ _ _ Hk Hlive) as Hget.
  destruct (next (clock w) (downstream w)) as [[[res|err] t] h] eqn:Hnext.
  - by rewrite (intercept_computed _ _ _ _ _ _ _ _ Hex Hget Hfalsy Hnext).
  - by rewrite (intercept_failed _ _ _ _ _ _ _ _ Hex Hget Hfalsy Hnext).
Qed.

Lemma intercept_falsy_entry_calls_next_witness :
  let req := {| path := "/flag"; accept_language := None |} in
  let w := world_at 500 (CachingService.set empty_store
                           "en:/flag" (JsBool false) 0) in
  let w' := (intercept (Some req) (constant (JsBool false)) w).2 in
  (intercept (Some req) (constant (JsBool false)) w).1
  = Return (JsBool false)
  ∧ clock w' = 500
  ∧ downstream w' = 1%nat
  ∧ trace w' = [EvGet "en:/flag"; EvNext; EvSet "en:/flag" (JsBool false)].
Proof.
  intros req w.
  refine (intercept_falsy_entry_calls_next req (constant (JsBool false)) w
            {| CachingService.key := "en:/flag";
               CachingService.value := JsBool false;
               CachingService.createdAt := 0;
               CachingService.expiresAt := 10000 |}
            eq_refl _ _ eq_refl).
  - vm_compute. reflexivity.
  - vm_compute. reflexivity.
Defined.

(** ** The cache key *)

Section KeyFacts.

Lemma list_ascii_of_string_app (s1 s2 : string) :
  Strings.String.list_ascii_of_string (s1 +:+ s2)
  = Strings.String.list_ascii_of_string s1
    ++ Strings.String.list_ascii_of_string s2.
Proof. induction s1 as [|a s1 IH]; simpl; [done | by rewrite IH]. Qed.

(** Two strings with a common suffix differ before it. *)
Lemma string_app_inv_tail (s1 s2 t : string) :
  s1 +:+ t = s2 +:+ t → s1 = s2.
Proof.
  intros Heq. apply (f_equal Strings.String.list_ascii_of_string) in Heq.
  rewrite !list_ascii_of_string_app in Heq.
  apply app_inv_tail in Heq.
  rewrite <- (Strings.String.string_of_list_ascii_of_string s1).
  rewrite <- (Strings.String.string_of_list_ascii_of_string s2).
  by rewrite Heq.
Qed.

Lemma cachingKey_lang_inj (r1 r2 : Request) :
  path r1 = path r2 → cachingKey r1 = cachingKey r2 → lang r1 = lang r2.
Proof.
  unfold cachingKey. intros ->. apply string_app_inv_tail.
Qed.

End KeyFacts.

(** C4: for a request that is not excluded, the key of the lookup and of
    the store, if any, is the language tag, a colon and the request path,
    concatenated as they are; a request with the same path and another
    language tag has another key, its entry is neither created, replaced
    nor removed by the run, and unless the caching service already held an
    entry under that other key, a following request in the other language
    calls the handler. *)
Theorem cachingKey_per_language
  {H : Type} (req req' : Request) (next next' : Handler H) (w : World H) :
  includes EXCLUDED_PATHS (path req) = false →
  path req' = path req →
  lang req' ≠ lang req →
  let k := lang req +:+ ":" +:+ path req in
  let k' := lang req' +:+ ":" +:+ path req in
  let w' := (intercept (Some req) next w).2 in
  (∃ added, trace w' = trace w ++ added ∧ run_shape k added)
  ∧ k' ≠ k
  ∧ CachingService.entries (cachingService w') !! k'
    = CachingService.entries (cachingService w) !! k'
  ∧ (CachingService.entries (cachingService w) !! k' = None →
     ∃ added', trace (intercept (Some req') next' w').2
               = trace w' ++ EvGet k' :: EvNext :: added').
Proof.
  intros Hex Hpath Hlang k k' w'.
  assert (Hne : k ≠ k').
  { intros Heq. apply Hlang. symmetry.
    by apply (string_app_inv_tail _ _ (":" +:+ path req)). }
  destruct (intercept_run req next w Hex) as [Hshape Hother].
  fold w' in Hshape, Hother. change (cachingKey req) with k in Hshape, Hother.
  split; [done|]. split; [done|]. split; [by apply Hother|].
  intros Hnone. rewrite <- (Hother k' Hne) in Hnone.
  assert (Hex' : includes EXCLUDED_PATHS (path req') = false)
    by (by rewrite Hpath).
  assert (Hk' : cachingKey req' = k')
    by (unfold cachingKey, k'; by rewrite Hpath).
  pose proof (get_absent _ _ (clock w') Hnone) as Hget.
  rewrite <- Hk' in Hget |- *.
  destruct (next' (clock w') (downstream w')) as [[[res|err] t] h] eqn:Hnext.
  - rewrite (intercept_computed _ _ _ _ _ _ _ _ Hex' Hget eq_refl Hnext).
    simpl. eauto.
  - rewrite (intercept_failed _ _ _ _ _ _ _ _ Hex' Hget eq_refl Hnext).
    simpl. eauto.
Qed.

(** The [en] answer for [/greet/loopback] is stored under
    ["en:/greet/loopback"]; the [zh] request 100 ms later does not find
    it. *)
Lemma cachingKey_per_language_witness :
  let en := {| path := "/greet/loopback"; accept_language := Some "en" |} in
  let zh := {| path := "/greet/loopback"; accept_language := Some "zh" |} in
  let w := world_at 1000 empty_store in
  let w' := (intercept (Some en) (greet "en" "Hello, loopback!") w).2 in
  (∃ added, trace w' = [] ++ added ∧ run_shape "en:/greet/loopback" added)
  ∧ "zh:/greet/loopback" ≠ "en:/greet/loopback"
  ∧ CachingService.entries (cachingService w') !! "zh:/greet/loopback"
    = CachingService.entries (cachingService w) !! "zh:/greet/loopback"
  ∧ (CachingService.entries (cachingService w) !! "zh:/greet/loopback" = None →
     ∃ added',
       trace (intercept (Some zh) (greet "zh" "你好，loopback！") w').2
       = trace w' ++ EvGet "zh:/greet/loopback" :: EvNext :: added').
Proof.
  intros en zh w.
  refine (cachingKey_per_language en zh
            (greet "en" "Hello, loopback!") (greet "zh" "你好，loopback！") w
            eq_refl eq_refl _).
  vm_compute. discriminate.
Defined.

Lemma lang_unrecognized_counterexample :
  let req := {| path := "/greet/loopback";
                accept_language := Some "tlh" |} in
("tlh" ∉ ACCEPTED_LANGUAGES)
  ∧ includes EXCLUDED_PATHS (path req) = false
  ∧ lang req = "tlh"
  ∧ lang req ≠ "en"
  ∧ trace (intercept (Some req) (greet "tlh" "Hello, loopback!")
             (world_at 1000 empty_store)).2
    = [EvGet "tlh:/greet/loopback"; EvNext;
       EvSet "tlh:/greet/loopback"
         (JsObject [("timestamp", JsDate 1000);
                    ("language", JsString "tlh");
                    ("greeting", JsString "Hello, loopback!")])].
Proof.
  intros req. split.
  - unfold ACCEPTED_LANGUAGES. rewrite !elem_of_cons, elem_of_nil.
    intros [?|[?|[?|[]]]]; discriminate.
  - vm_compute. repeat split; try done.
Qed.

(** C5 (amended): for a request that is not excluded, the language tag of
    the key that is looked up comes from the [accept-language] header: it
    is ["en"] when the header is absent or empty, and the header's value,
    as it is, otherwise. *)
Theorem lang_from_header
  {H : Type} (req : Request) (next : Handler H) (w : World H) :
  includes EXCLUDED_PATHS (path req) = false →
  (∃ added,
      trace (intercept (Some req) next w).2
      = trace w ++ EvGet (lang req +:+ ":" +:+ path req) :: added)
  ∧ (accept_language req = None → lang req = "en")
  ∧ (accept_language req = Some "" → lang req = "en")
  ∧ (∀ s, accept_language req = Some s → s ≠ "" → lang req = s).
Proof.
  intros Hex. split; [|split; [|split]].
  - destruct (intercept_run req next w Hex) as [(added & -> & Hshape) _].
    destruct Hshape; simpl; eauto.
  - unfold lang. by intros ->.
  - unfold lang. by intros ->.
  - unfold lang. intros s -> Hs.
    destruct (String.eqb_spec s ""); [done | done].
Qed.

Lemma lang_from_header_witness :
  ∃ added,
    trace (intercept
             (Some {| path := "/greet/loopback"; accept_language := None |})
             (greet "en" "Hello, loopback!")
             (world_at 1000 empty_store)).2
    = [] ++ EvGet "en:/greet/loopback" :: added.
Proof.
  refine (proj1 (lang_from_header
                   {| path := "/greet/loopback"; accept_language := None |}
                   (greet "en" "Hello, loopback!")
                   (world_at 1000 empty_store)
                   eq_refl)).
Defined.

(** ** Failure of the handler *)




(** ** The tutorial's test, end to end *)

(** [GET /greet/loopback] with language [en] and a TTL of 10 s: the first
    request at [T1 = 1000] is computed; the repeat 200 ms later carries the
    same time stamp and the handler has still run once; the request at
    [T1 + 11000] is computed again and carries a new time stamp, although
    no sweep has run in between. *)
Example tutorial_scenario :
  let req := {| path := "/greet/loopback"; accept_language := Some "en" |} in
  let next := greet "en" "Hello, loopback!" in
  let answer T := JsObject [("timestamp", JsDate T);
                            ("language", JsString "en");
                            ("greeting", JsString "Hello, loopback!")] in
  let r1 := intercept (Some req) next
              (world_at 1000 empty_store) in
  let r2 := intercept (Some req) next (later 200 r1.2) in
  let r3 := intercept (Some req) next (later 10800 r2.2) in
  r1.1 = Return (answer 1000) ∧ downstream r1.2 = 1%nat
  ∧ r2.1 = Return (answer 1000) ∧ downstream r2.2 = 1%nat
  ∧ trace r2.2 = [EvGet "en:/greet/loopback"]
  ∧ r3.1 = Return (answer 12000) ∧ downstream r3.2 = 2%nat
  ∧ trace r3.2 = [EvGet "en:/greet/loopback"; EvNext;
                  EvSet "en:/greet/loopback" (answer 12000)].
Proof. vm_compute. repeat split; reflexivity. Qed.


(** * Further properties of the interceptor *)

Section InterceptRuns.

Context {H : Type}.

Implicit Types (w : World H) (next : Handler H) (req : Request).

(** The four ways a run can go. *)
Lemma intercept_cases (httpReq : option Request) next w c t h :
  next (clock w) (downstream w) = (c, t, h) →
  ((httpReq = None
    ∨ ∃ req, httpReq = Some req
             ∧ includes EXCLUDED_PATHS (path req) = true)
   ∧ intercept httpReq next w
     = (c, {| clock := t; cachingService := cachingService w;
              downstream := h; trace := trace w ++ [EvNext] |}))
  ∨ ∃ req r st',
      httpReq = Some req
      ∧ includes EXCLUDED_PATHS (path req) = false
      ∧ CachingService.get (cachingService w) (cachingKey req) (clock w)
        = (r, st')
      ∧ ((∃ v, r = Some v ∧ truthy v = true
               ∧ intercept httpReq next w
                 = (Return v,
                    {| clock := clock w; cachingService := st';
                       downstream := downstream w;
                       trace := trace w ++ [EvGet (cachingKey req)] |}))
         ∨ (truthy (default JsUndefined r) = false
            ∧ ((∃ res, c = Return res
                  ∧ intercept httpReq next w
                    = (Return res,
                       {| clock := t;
                          cachingService :=
                            CachingService.set st' (cachingKey req) res t;
                          downstream := h;
                          trace := trace w ++ [EvGet (cachingKey req); EvNext;
                                               EvSet (cachingKey req) res] |}))
               ∨ (∃ err, c = Throw err
                    ∧ intercept httpReq next w
                      = (Throw err,
                         {| clock := t; cachingService := st';
                            downstream := h;
                            trace := trace w ++ [EvGet (cachingKey req);
                                                 EvNext] |}))))).
Proof.
  intros Hnext. destruct httpReq as [req|].
  - destruct (includes EXCLUDED_PATHS (path req)) eqn:Hex.
    + left. split; [right; eauto|].
      rewrite intercept_excluded by done. by apply call_spec.
    + right.
      destruct (CachingService.get (cachingService w) (cachingKey req)
                  (clock w)) as [r st'] eqn:Hget.
      exists req, r, st'. repeat (split; [done|]).
      destruct (truthy (default JsUndefined r)) eqn:Htruthy.
      * left. destruct r as [v|]; [|done]. exists v.
        repeat (split; [done|]). by apply intercept_cached.
      * right. split; [done|]. destruct c as [res|err].
        -- left. exists res. split; [done|].
           by apply (intercept_computed req next w r).
        -- right. exists err. split; [done|].
           by apply (intercept_failed req next w r).
  - left. split; [by left|]. by apply call_spec.
Qed.

End InterceptRuns.


(** X2: the interceptor never makes up a value.  Whatever it returns
    either is the value [next] returned in this very run, on a request
    with no HTTP request bound, an excluded path, or a lookup that gave
    nothing truthy; or it is a truthy value held by an entry under the
    derived key that is live at the time of the request, and then [next]
    has not been called. *)
Theorem intercept_value_provenance
  {H : Type} (httpReq : option Request) (next : Handler H) (w : World H)
  (v : JsValue) :
  (intercept httpReq next w).1 = Return v →
  ((∃ t h, next (clock w) (downstream w) = (Return v, t, h))
   ∧ EvNext ∈ trace (intercept httpReq next w).2
   ∧ ∀ req, httpReq = Some req →
            includes EXCLUDED_PATHS (path req) = false →
            truthy (default JsUndefined
                      (CachingService.get (cachingService w) (cachingKey req)
                         (clock w)).1) = false)
  ∨ (∃ req e,
        httpReq = Some req
        ∧ includes EXCLUDED_PATHS (path req) = false
        ∧ CachingService.entries (cachingService w) !! cachingKey req = Some e
        ∧ CachingService.value e = v
        ∧ clock w < CachingService.expiresAt e
        ∧ truthy v = true
        ∧ trace (intercept httpReq next w).2
          = trace w ++ [EvGet (cachingKey req)]
        ∧ downstream (intercept httpReq next w).2 = downstream w).
Proof.
  destruct (next (clock w) (downstream w)) as [[c t] h] eqn:Hnext.
  destruct (intercept_cases httpReq next w c t h Hnext)
    as [[Hby Hr] | (req & r & st' & -> & Hex & Hget &
                    [(v' & -> & Hv & Hr)
                    | (Hf & [(res & -> & Hr) | (err & -> & Hr)])])];
    rewrite Hr; cbn [fst snd trace downstream].
  - intros ->. left. split; [eauto|]. split.
    + apply elem_of_app. right. constructor.
    + intros req -> Hex. destruct Hby as [[=]|(req' & [= <-] & Hex')].
      congruence.
  - intros [= ->]. right.
    assert (Hfst : (CachingService.get (cachingService w) (cachingKey req)
                      (clock w)).1 = Some v) by (by rewrite Hget).
    apply get_Some_inv in Hfst as (e & He & Hval & Hlive).
    exists req, e. by rewrite Hval.
  - intros [= ->]. left. split; [eauto|]. split.
    + rewrite !elem_of_app, !elem_of_cons. auto.
    + intros req' [= <-] _. by rewrite Hget.
  - intros [=].
Qed.

Lemma intercept_value_provenance_witness :
  let req := {| path := "/greet/loopback"; accept_language := Some "en" |} in
  let w := world_at 500 (CachingService.set empty_store
                           "en:/greet/loopback"
                           (JsString "Hello, loopback!") 0) in
  (∃ t h, failing JsNull (clock w) (downstream w)
          = (Return (JsString "Hello, loopback!"), t, h))
  ∧ EvNext ∈ trace (intercept (Some req) (failing JsNull) w).2
  ∧ (∀ r, Some req = Some r →
          includes EXCLUDED_PATHS (path r) = false →
          truthy (default JsUndefined
                    (CachingService.get (cachingService w) (cachingKey r)
                       (clock w)).1) = false)
  ∨ (∃ r e,
        Some req = Some r
        ∧ includes EXCLUDED_PATHS (path r) = false
        ∧ CachingService.entries (cachingService w) !! cachingKey r = Some e
        ∧ CachingService.value e = JsString "Hello, loopback!"
        ∧ clock w < CachingService.expiresAt e
        ∧ truthy (JsString "Hello, loopback!") = true
        ∧ trace (intercept (Some req) (failing JsNull) w).2
          = trace w ++ [EvGet (cachingKey r)]
        ∧ downstream (intercept (Some req) (failing JsNull) w).2
          = downstream w).
Proof.
  intros req w.
  refine (intercept_value_provenance (Some req) (failing JsNull) w
            (JsString "Hello, loopback!") _).
  vm_compute. reflexivity.
Defined.

(** X3: what a run leaves alone in the caching service.  With no
    request bound or an excluded path: everything, the store is the same
    after as before.  Otherwise: the TTL, every entry under a key other
    than the derived key of the request, and every entry that is live and
    truthy at the time of the request, which is neither removed nor
    replaced. *)
Theorem intercept_frame
  {H : Type} (httpReq : option Request) (next : Handler H) (w : World H) :
  let st := cachingService w in
  let st' := cachingService (intercept httpReq next w).2 in
  match httpReq with
  | None => st' = st
  | Some req =>
      if includes EXCLUDED_PATHS (path req) then st' = st
      else
        CachingService.ttl st' = CachingService.ttl st
        ∧ ∀ k', cachingKey req ≠ k' →
                CachingService.entries st' !! k'
                = CachingService.entries st !! k'
  end
  ∧ (∀ k' e, CachingService.entries st !! k' = Some e →
             clock w < CachingService.expiresAt e →
             truthy (CachingService.value e) = true →
             CachingService.entries st' !! k' = Some e).
Proof.
  destruct (next (clock w) (downstream w)) as [[c t] h] eqn:Hnext.
  destruct (intercept_cases httpReq next w c t h Hnext)
    as [[Hby Hr] | (req & r & st1 & -> & Hex & Hget & Hrun)]; cbv zeta.
  { rewrite Hr. cbn [snd cachingService]. split; [|done].
    destruct Hby as [->|(req & -> & Hex)]; [done | by rewrite Hex]. }
  rewrite Hex.
  assert (Hst1 : st1 = (CachingService.get (cachingService w) (cachingKey req)
                          (clock w)).2) by (by rewrite Hget).
  assert (Hfst : r = (CachingService.get (cachingService w) (cachingKey req)
                        (clock w)).1) by (by rewrite Hget).
  assert (Hkeep : ∀ k' e,
             CachingService.entries (cachingService w) !! k' = Some e →
             clock w < CachingService.expiresAt e →
             CachingService.entries st1 !! k' = Some e).
  { intros k' e He Hlive. rewrite Hst1.
    destruct (decide (cachingKey req = k')) as [<-|Hne].
    - by rewrite (get_live _ _ e _ He Hlive).
    - by rewrite get_other. }
  assert (Hfalsy : truthy (default JsUndefined r) = false →
            ∀ k' e,
              CachingService.entries (cachingService w) !! k' = Some e →
              clock w < CachingService.expiresAt e →
              truthy (CachingService.value e) = true →
              cachingKey req ≠ k').
  { intros Hf k' e He Hlive Htruthy <-.
    rewrite Hfst, (get_live _ _ e _ He Hlive) in Hf. simpl in Hf. congruence. }
  destruct Hrun as [(v & _ & _ & Hr)
                   | (Hf & [(res & _ & Hr) | (err & _ & Hr)])];
    rewrite Hr; simpl.
  - split; [|by eauto]. split; [by rewrite Hst1, get_ttl|].
    intros k' Hne. rewrite Hst1. by apply get_other.
  - split.
    + split; [by rewrite Hst1, get_ttl|].
      intros k' Hne. rewrite lookup_insert_ne by done.
      rewrite Hst1. by apply get_other.
    + intros k' e He Hlive Htruthy.
      rewrite lookup_insert_ne by (by apply (Hfalsy Hf k' e)). by apply Hkeep.
  - split; [|by eauto]. split; [by rewrite Hst1, get_ttl|].
    intros k' Hne. rewrite Hst1. by apply get_other.
Qed.

(** ** Two requests in a row *)

(** X4: a result that was computed, is truthy and was stored at time [t]
    answers every later request with the same derived key that arrives
    before [t + TTL], provided the caching service was not changed in
    between: the repeat returns that result, does not call its handler,
    and changes nothing but the log. *)
Theorem intercept_repeat_within_ttl
  {H : Type} (req req2 : Request) (next next2 : Handler H) (w w2 : World H)
  (res : JsValue) (t : Z) (h : H) :
  includes EXCLUDED_PATHS (path req) = false →
  includes EXCLUDED_PATHS (path req2) = false →
  cachingKey req2 = cachingKey req →
  truthy (default JsUndefined
            (CachingService.get (cachingService w) (cachingKey req)
               (clock w)).1) = false →
  next (clock w) (downstream w) = (Return res, t, h) →
  truthy res = true →
  cachingService w2 = cachingService (intercept (Some req) next w).2 →
  clock w2 < t + CachingService.ttl (cachingService w) →
  intercept (Some req2) next2 w2
  = (Return res,
     {| clock := clock w2; cachingService := cachingService w2;
        downstream := downstream w2;
        trace := trace w2 ++ [EvGet (cachingKey req)] |}).
Proof.
  intros Hex Hex2 Hkey Hmiss Hnext Htruthy Hstore Hlive.
  destruct (CachingService.get (cachingService w) (cachingKey req) (clock w))
    as [r st'] eqn:Hget.
  rewrite (intercept_computed req next w r st' res t h Hex Hget Hmiss Hnext)
    in Hstore. simpl in Hstore.
  assert (Httl : CachingService.ttl st' = CachingService.ttl (cachingService w)).
  { replace st' with (CachingService.get (cachingService w) (cachingKey req)
                        (clock w)).2 by (by rewrite Hget).
    apply get_ttl. }
  rewrite <- Hkey.
  apply intercept_cached; [done | | done].
  rewrite Hkey, Hstore.
  rewrite (get_live _ _ _ (clock w2)
             (set_lookup st' (cachingKey req) res t)); [done|].
  simpl. by rewrite Httl.
Qed.

Lemma intercept_repeat_within_ttl_witness :
  let req := {| path := "/greet/loopback"; accept_language := None |} in
  let req2 := {| path := "/greet/loopback"; accept_language := Some "en" |} in
  let res := JsString "Hello, loopback!" in
  let w := world_at 1000 empty_store in
  let w2 := later 9999 (intercept (Some req) (constant res) w).2 in
  intercept (Some req2) (failing JsNull) w2
  = (Return res,
     {| clock := clock w2; cachingService := cachingService w2;
        downstream := downstream w2;
        trace := trace w2 ++ [EvGet (cachingKey req)] |}).
Proof.
  intros req req2 res w w2.
  refine (intercept_repeat_within_ttl req req2 (constant res) (failing JsNull)
            w w2 res 1000 1%nat
            eq_refl eq_refl eq_refl eq_refl eq_refl eq_refl eq_refl _).
  vm_compute. reflexivity.
Defined.

(** X5: a computed result that is falsy, or that was stored at time [t]
    and is asked for at or after [t + TTL], is not served: the repeat
    looks the key up, calls its own handler, completes as that handler
    does, and stores what it returned. *)
Theorem intercept_repeat_recomputed
  {H : Type} (req req2 : Request) (next next2 : Handler H) (w w2 : World H)
  (res : JsValue) (t : Z) (h : H) :
  includes EXCLUDED_PATHS (path req) = false →
  includes EXCLUDED_PATHS (path req2) = false →
  cachingKey req2 = cachingKey req →
  truthy (default JsUndefined
            (CachingService.get (cachingService w) (cachingKey req)
               (clock w)).1) = false →
  next (clock w) (downstream w) = (Return res, t, h) →
  cachingService w2 = cachingService (intercept (Some req) next w).2 →
  truthy res = false ∨ t + CachingService.ttl (cachingService w) ≤ clock w2 →
  let '(c2, t2, h2) := next2 (clock w2) (downstream w2) in
  let w' := (intercept (Some req2) next2 w2).2 in
  (intercept (Some req2) next2 w2).1 = c2
  ∧ clock w' = t2
  ∧ downstream w' = h2
  ∧ trace w'
    = trace w2 ++ EvGet (cachingKey req) :: EvNext ::
        match c2 with
        | Return res2 => [EvSet (cachingKey req) res2]
        | Throw _ => []
        end
  ∧ ∀ res2, c2 = Return res2 →
      CachingService.entries (cachingService w') !! cachingKey req
      = Some {| CachingService.key := cachingKey req;
                CachingService.value := res2;
                CachingService.createdAt := t2;
                CachingService.expiresAt :=
                  t2 + CachingService.ttl (cachingService w) |}.
Proof.
  intros Hex Hex2 Hkey Hmiss Hnext Hstore Hwhy.
  destruct (CachingService.get (cachingService w) (cachingKey req) (clock w))
    as [r st'] eqn:Hget.
  rewrite (intercept_computed req next w r st' res t h Hex Hget Hmiss Hnext)
    in Hstore. simpl in Hstore.
  assert (Httl : CachingService.ttl st' = CachingService.ttl (cachingService w)).
  { replace st' with (CachingService.get (cachingService w) (cachingKey req)
                        (clock w)).2 by (by rewrite Hget).
    apply get_ttl. }
  pose proof (set_lookup st' (cachingKey req) res t) as Hentry.
  rewrite <- Hstore in Hentry.
  destruct (CachingService.get (cachingService w2) (cachingKey req2)
              (clock w2)) as [r2 st2] eqn:Hget2.
  assert (Hfalsy : truthy (default JsUndefined r2) = false).
  { rewrite Hkey in Hget2.
    destruct (Z.le_gt_cases (t + CachingService.ttl st') (clock w2))
      as [Hexp|Hlive].
    - rewrite (get_stale _ _ _ _ Hentry) in Hget2 by done.
      by injection Hget2 as <- _.
    - rewrite (get_live _ _ _ _ Hentry) in Hget2 by done.
      injection Hget2 as <- _. simpl.
      destruct Hwhy as [Hf|Hexp]; [done | rewrite Httl in Hlive; lia]. }
  assert (Httl2 : CachingService.ttl st2
                  = CachingService.ttl (cachingService w)).
  { replace st2 with (CachingService.get (cachingService w2) (cachingKey req2)
                        (clock w2)).2 by (by rewrite Hget2).
    by rewrite get_ttl, Hstore. }
  destruct (next2 (clock w2) (downstream w2)) as [[[res2|err2] t2] h2]
    eqn:Hnext2.
  - rewrite (intercept_computed req2 next2 w2 r2 st2 res2 t2 h2
               Hex2 Hget2 Hfalsy Hnext2). simpl. rewrite Hkey.
    repeat (split; [done|]). intros ? [= <-].
    by rewrite lookup_insert_eq, Httl2.
  - rewrite (intercept_failed req2 next2 w2 r2 st2 err2 t2 h2
               Hex2 Hget2 Hfalsy Hnext2). simpl. rewrite Hkey.
    repeat (split; [done|]). intros ? [=].
Qed.

Lemma intercept_repeat_recomputed_witness :
  let req := {| path := "/greet/loopback"; accept_language := Some "en" |} in
  let w := world_at 1000 empty_store in
  let next := greet "en" "Hello, loopback!" in
  let w2 := later 10000 (intercept (Some req) next w).2 in
  (intercept (Some req) next w2).1
  = Return (JsObject [("timestamp", JsDate 11000);
                      ("language", JsString "en");
                      ("greeting", JsString "Hello, loopback!")]).
Proof.
  intros req w next w2.
  refine (proj1 (intercept_repeat_recomputed req req next next w w2
                   (JsObject [("timestamp", JsDate 1000);
                              ("language", JsString "en");
                              ("greeting", JsString "Hello, loopback!")])
                   1000 1%nat
                   eq_refl eq_refl eq_refl eq_refl eq_refl eq_refl _)).
  right. vm_compute. discriminate.
Defined.

(** ** How far the key identifies the request *)

Lemma app_pivot_inj (c : Ascii.ascii) (s1 s2 p1 p2 : string) :
  occurs c s1 = false → occurs c s2 = false →
  s1 +:+ String c p1 = s2 +:+ String c p2 →
  s1 = s2 ∧ p1 = p2.
Proof.
  revert s2. induction s1 as [|a s1 IH]; intros [|b s2]; simpl.
  - by intros _ _ [= ->].
  - intros _ [Hb _]%orb_false_elim [= <- _]. by rewrite Ascii.eqb_refl in Hb.
  - intros [Ha _]%orb_false_elim _ [= -> _]. by rewrite Ascii.eqb_refl in Ha.
  - intros [_ H1]%orb_false_elim [_ H2]%orb_false_elim [= -> Heq].
    by destruct (IH s2 H1 H2 Heq) as [-> ->].
Qed.

Lemma string_app_assoc (s1 s2 s3 : string) :
  (s1 +:+ s2) +:+ s3 = s1 +:+ s2 +:+ s3.
Proof.
  induction s1 as [|a s1 IH]; [done|].
  change (String a ((s1 +:+ s2) +:+ s3) = String a (s1 +:+ s2 +:+ s3)).
  by f_equal.
Qed.

Lemma lang_nonempty_header (p s : string) :
  s ≠ "" → lang {| path := p; accept_language := Some s |} = s.
Proof. intros Hs. unfold lang. simpl. by destruct (String.eqb_spec s ""). Qed.

(** X6: among requests whose language tag contains no colon, the key
    identifies tag and path: equal keys mean equal tags and equal paths,
    so such requests share an entry only if they agree on both. *)
Theorem cachingKey_inj_no_colon (r1 r2 : Request) :
  occurs ":"%char (lang r1) = false →
  occurs ":"%char (lang r2) = false →
  cachingKey r1 = cachingKey r2 →
  lang r1 = lang r2 ∧ path r1 = path r2.
Proof. unfold cachingKey. apply app_pivot_inj. Qed.

Lemma cachingKey_inj_no_colon_witness :
  let r1 := {| path := "/greet/loopback"; accept_language := None |} in
  let r2 := {| path := "/greet/loopback"; accept_language := Some "en" |} in
  lang r1 = lang r2 ∧ path r1 = path r2.
Proof.
  intros r1 r2.
  exact (cachingKey_inj_no_colon r1 r2 eq_refl eq_refl eq_refl).
Defined.

(** X7: a colon in the header breaks this: for a non-empty tag [l] and
    any [p] and [q], the request for path [q] with header [l:p] and the
    request for the different path [p:q] with header [l] have the same
    key, hence share one cache entry. *)
Theorem cachingKey_collision (l p q : string) :
  l ≠ "" →
  let r1 := {| path := q; accept_language := Some (l +:+ ":" +:+ p) |} in
  let r2 := {| path := p +:+ ":" +:+ q; accept_language := Some l |} in
  cachingKey r1 = cachingKey r2 ∧ path r1 ≠ path r2.
Proof.
  intros Hl r1 r2. split.
  - unfold cachingKey, r1, r2.
    rewrite (lang_nonempty_header _ l Hl).
    rewrite lang_nonempty_header by (by destruct l).
    cbn [path]. by rewrite string_app_assoc.
  - simpl. intros Heq.
    apply (f_equal String.length) in Heq.
    assert (Hlen : ∀ s1 s2, String.length (s1 +:+ s2)
                            = (String.length s1 + String.length s2)%nat).
    { intros s1 s2. induction s1 as [|a s1 IH]; simpl; [done | by rewrite IH]. }
    rewrite !Hlen in Heq. simpl in Heq. lia.
Qed.

Lemma cachingKey_collision_witness :
  cachingKey {| path := "/b"; accept_language := Some "en:/a" |}
  = cachingKey {| path := "/a:/b"; accept_language := Some "en" |}
  ∧ "/b" ≠ "/a:/b".
Proof.
  refine (cachingKey_collision "en" "/a" "/b" _). discriminate.
Defined.

(** * The greeters and the greeting endpoint *)

(** The last byte of a string that ends with a string constant. *)
Lemma last_byte_app (s : string) (a : Ascii.ascii) (t : string) :
  last (Strings.String.list_ascii_of_string (s +:+ String a t))
  = last (Strings.String.list_ascii_of_string (String a t)).
Proof. rewrite list_ascii_of_string_app. simpl. apply last_app_cons. Qed.

(** X8: the French greeting tells the name and the word order apart: two
    greetings are equal only if the names are equal and the options put
    the name on the same side. *)
Theorem FrenchGreeter_greet_inj
  (o1 o2 : option FrenchGreeter.FrenchGreeterOptions) (n1 n2 : string) :
  FrenchGreeter.greet o1 n1 = FrenchGreeter.greet o2 n2 →
  n1 = n2 ∧ ∀ n, FrenchGreeter.greet o1 n = FrenchGreeter.greet o2 n.
Proof.
  assert (Hmixed : ∀ m1 m2, "Bonjour，" +:+ m1 +:+ "！" ≠ m2 +:+ ", Bonjour").
  { intros m1 m2 Heq.
    apply (f_equal (λ s, last (Strings.String.list_ascii_of_string s))) in Heq.
    rewrite <- (string_app_assoc "Bonjour，" m1 "！") in Heq.
    rewrite !last_byte_app in Heq. vm_compute in Heq. discriminate Heq. }
  unfold FrenchGreeter.greet.
  destruct (match o1 with
            | Some o => negb (FrenchGreeter.nameFirst o) | None => false
            end),
           (match o2 with
            | Some o => negb (FrenchGreeter.nameFirst o) | None => false
            end); intros Heq.
  - apply (inj (String.append _)) in Heq.
    by apply string_app_inv_tail in Heq.
  - by apply Hmixed in Heq.
  - symmetry in Heq. by apply Hmixed in Heq.
  - by apply string_app_inv_tail in Heq.
Qed.

Lemma FrenchGreeter_greet_inj_witness :
  "Diana" = "Diana"
  ∧ ∀ n, FrenchGreeter.greet None n
         = FrenchGreeter.greet
             (Some {| FrenchGreeter.nameFirst := true |}) n.
Proof.
  exact (FrenchGreeter_greet_inj
           None (Some {| FrenchGreeter.nameFirst := true |})
           "Diana" "Diana" eq_refl).
Defined.

(** X9: the answer of the greeting endpoint tells time stamp, language
    header and name apart: two calls of [GreetingController.greet] give
    the same answer only at the same time, for the same header (absent is
    not ["undefined"]) and the same name. *)
Theorem GreetingController_greet_inj
  (n1 n2 : string) (l1 l2 : option string) (t1 t2 : Z) (c1 c2 : nat) :
  (GreetingController.greet n1 l1 t1 c1).1.1
  = (GreetingController.greet n2 l2 t2 c2).1.1 →
  t1 = t2 ∧ l1 = l2 ∧ n1 = n2.
Proof.
  unfold GreetingController.greet, SimpleGreetingService.greet. simpl.
  intros [= -> Hl Hg].
  assert (l1 = l2) as -> by (destruct l1, l2; simpl in Hl; congruence).
  repeat split.
  apply (inj (String.append _)) in Hg.
  by apply string_app_inv_tail in Hg.
Qed.

Lemma GreetingController_greet_inj_witness :
  1000 = 1000 ∧ Some "en" = Some "en" ∧ "loopback" = "loopback".
Proof.
  exact (GreetingController_greet_inj "loopback" "loopback"
           (Some "en") (Some "en") 1000 1000 0%nat 7%nat eq_refl).
Defined.

(** X10: behind the interceptor the greeting endpoint never fails and its
    answer is always cached: on a miss the request is answered with the
    time stamp of the request, and the same request repeated before the
    TTL has elapsed gets the very same answer, first time stamp included,
    without the controller being called. *)
Theorem greeting_endpoint_repeat
  (req : Request) (name : string) (w w2 : World nat) :
  let next := GreetingController.greet name (accept_language req) in
  let answer :=
    JsObject
      [("timestamp", JsDate (clock w));
       ("language", from_option JsString JsUndefined (accept_language req));
       ("greeting",
        JsString (SimpleGreetingService.greet (accept_language req) name))] in
  includes EXCLUDED_PATHS (path req) = false →
  (∀ e, CachingService.entries (cachingService w) !! cachingKey req = Some e →
        CachingService.expiresAt e ≤ clock w) →
  cachingService w2 = cachingService (intercept (Some req) next w).2 →
  clock w2 < clock w + CachingService.ttl (cachingService w) →
  (intercept (Some req) next w).1 = Return answer
  ∧ intercept (Some req) next w2
    = (Return answer,
       {| clock := clock w2; cachingService := cachingService w2;
          downstream := downstream w2;
          trace := trace w2 ++ [EvGet (cachingKey req)] |}).
Proof.
  intros next answer Hex Hdead Hstore Hlive.
  assert (Hmiss : truthy (default JsUndefined
                    (CachingService.get (cachingService w) (cachingKey req)
                       (clock w)).1) = false).
  { destruct (CachingService.get (cachingService w) (cachingKey req)
                (clock w)).1 as [v|] eqn:Hget; [|done].
    apply get_Some_inv in Hget as (e & He & _ & Hlt).
    specialize (Hdead e He). lia. }
  assert (Hnext : next (clock w) (downstream w)
                  = (Return answer, clock w, S (downstream w))) by done.
  split.
  - destruct (CachingService.get (cachingService w) (cachingKey req)
                (clock w)) as [r st'] eqn:Hget.
    by rewrite (intercept_computed req next w r st' answer _ _
                  Hex Hget Hmiss Hnext).
  - apply (intercept_repeat_within_ttl req req next next w w2 answer
             (clock w) (S (downstream w))); done.
Qed.

Lemma greeting_endpoint_repeat_witness :
  let req := {| path := "/greet/loopback"; accept_language := Some "fr" |} in
  let next := GreetingController.greet "loopback" (Some "fr") in
  let answer :=
    JsObject [("timestamp", JsDate 1000);
              ("language", JsString "fr");
              ("greeting",
               JsString "Greeting 'loopback' in language 'fr'")] in
  let w := world_at 1000 empty_store in
  let w2 := later 5000 (intercept (Some req) next w).2 in
  (intercept (Some req) next w).1 = Return answer
  ∧ intercept (Some req) next w2
    = (Return answer,
       {| clock := 6000; cachingService := cachingService w2;
          downstream := 1%nat; trace := [EvGet "fr:/greet/loopback"] |}).
Proof.
  intros req next answer w w2.
  refine (greeting_endpoint_repeat req "loopback" w w2 eq_refl _ eq_refl _).
  - intros e He. vm_compute in He. discriminate He.
  - vm_compute. reflexivity.
Defined.

(** X11: the key merges what the controller keeps apart.  A request
    without [Accept-Language] header and a request with the header [en]
    have the same key, so after the first was computed, the second, asked
    within the TTL, is answered with the first one's answer, whose
    language is [undefined], and not with the answer the controller gives
    to a request with the header [en]. *)
Theorem greeting_shared_between_absent_and_en
  (p name : string) (w w2 : World nat) :
  let req := {| path := p; accept_language := None |} in
  let req2 := {| path := p; accept_language := Some "en" |} in
  let next := GreetingController.greet name None in
  let next2 := GreetingController.greet name (Some "en") in
  includes EXCLUDED_PATHS p = false →
  (∀ e, CachingService.entries (cachingService w) !! cachingKey req = Some e →
        CachingService.expiresAt e ≤ clock w) →
  cachingService w2 = cachingService (intercept (Some req) next w).2 →
  clock w2 < clock w + CachingService.ttl (cachingService w) →
  (intercept (Some req2) next2 w2).1 = (next (clock w) (downstream w)).1.1
  ∧ downstream (intercept (Some req2) next2 w2).2 = downstream w2
  ∧ ∀ t c, (intercept (Some req2) next2 w2).1 ≠ (next2 t c).1.1.
Proof.
  intros req req2 next next2 Hex Hdead Hstore Hlive.
  assert (Hmiss : truthy (default JsUndefined
                    (CachingService.get (cachingService w) (cachingKey req)
                       (clock w)).1) = false).
  { destruct (CachingService.get (cachingService w) (cachingKey req)
                (clock w)).1 as [v|] eqn:Hget; [|done].
    apply get_Some_inv in Hget as (e & He & _ & Hlt).
    specialize (Hdead e He). lia. }
  rewrite (intercept_repeat_within_ttl req req2 next next2 w w2
             _ (clock w) (S (downstream w)) Hex Hex eq_refl Hmiss eq_refl
             eq_refl Hstore Hlive).
  simpl. repeat split. intros t c. discriminate.
Qed.

Lemma greeting_shared_between_absent_and_en_witness :
  let req := {| path := "/greet/loopback"; accept_language := None |} in
  let req2 := {| path := "/greet/loopback"; accept_language := Some "en" |} in
  let next := GreetingController.greet "loopback" None in
  let next2 := GreetingController.greet "loopback" (Some "en") in
  let w := world_at 1000 empty_store in
  let w2 := later 5000 (intercept (Some req) next w).2 in
  (intercept (Some req2) next2 w2).1
  = Return (JsObject
              [("timestamp", JsDate 1000);
               ("language", JsUndefined);
               ("greeting",
                JsString "Greeting 'loopback' in language 'undefined'")]).
Proof.
  intros req req2 next next2 w w2.
  refine (proj1 (greeting_shared_between_absent_and_en
                   "/greet/loopback" "loopback" w w2 eq_refl _ eq_refl _)).
  - intros e He. vm_compute in He. discriminate He.
  - vm_compute. reflexivity.
Defined.
